(** * go-toml: the work-in-progress [toml2] decoder and the [jpath] index match

    A shallow embedding of [src/toml2/toml.go] (the streaming decoder) and of
    [matchIndexFn.Call] from [src/jpath/match.go], with the properties the
    specification states about them.

    Conventions of the embedding.
    - A Go [rune] (an [int32]) is a [Z]; the sentinel [eof] is [-1].
    - A Go [string] is the list of its code points ([gostring]); the conversion
      [string(r)] yields one code point, U+FFFD when [r] is not a Unicode
      scalar value, so [len(s) == 0] holds exactly for the empty list.
    - A method of [*Decoder] is a function from the decoder state to an
      [outcome]: it returns a value and the new state, it panics (Go's
      [panic], never recovered in this package), or its loop does not finish
      within the iteration budget ([Diverged]).
    - A Go [(T, error)] result is a pair whose second component is an
      [option error] ([None] is [nil]). *)

From Stdlib Require Import ZArith List Bool Lia Ascii String.
Import ListNotations.
Open Scope Z_scope.

Set Implicit Arguments.
Set Warnings "-register-all".

(** ** Runes and strings *)

Definition rune := Z.
Definition gostring := list rune.

(** A character literal of the source, as its code point. *)
Definition ch (c : ascii) : rune := Z.of_N (N_of_ascii c).

(** The code points of an ASCII text, to write inputs legibly. *)
Definition runes (s : string) : list rune := map ch (list_ascii_of_string s).

Definition dquote : rune := 34.   (* the double quote *)
Definition squote : rune := 39.   (* the single quote *)

(** Go's conversion [string(r)]: a rune that is no Unicode scalar value
    becomes the replacement character U+FFFD. *)
Definition validRune (r : rune) : bool :=
  (0 <=? r) && (r <=? 1114111) && negb ((55296 <=? r) && (r <=? 57343)).

Definition string_of_rune (r : rune) : gostring :=
  [if validRune r then r else 65533].

(** Go's conversion [string(rs)] of a [[]rune]. *)
Definition string_of_runes (rs : list rune) : gostring :=
  flat_map string_of_rune rs.

(** Go's conversion [rune(i)] of an [int64]: truncation to 32 bits, signed. *)
Definition rune_of_int64 (i : Z) : rune :=
  (i + 2147483648) mod 4294967296 - 2147483648.

(** ** The buffered rune reader

    [github.com/pelletier/go-buffruneio] is a dependency of the package, not
    part of it.  Its [Reader] is modelled by the runes still ahead of the
    cursor: [PeekRunes n] returns at most [n] upcoming runes without moving
    the cursor and includes [EOF] when the end is reached (it stops there);
    [ReadRune] returns the rune under the cursor with its UTF-8 size and
    moves past it, and returns [EOF] at the end.  The byte source is an
    in-memory buffer, so no read error occurs. *)
Module buffruneio.

Definition EOF : rune := -1.

Record Reader := mkReader { pending : list rune }.

Definition NewReader (input : list rune) : Reader := mkReader input.

Fixpoint peekFrom (n : nat) (cursor : list rune) : list rune :=
  match n with
  | O => []
  | S n' =>
      match cursor with
      | [] => [EOF]
      | r :: rest => r :: (if r =? EOF then [] else peekFrom n' rest)
      end
  end.

Definition PeekRunes (n : nat) (rd : Reader) : list rune :=
  peekFrom n (pending rd).

Definition runeLen (r : rune) : Z :=
  if r <? 128 then 1 else if r <? 2048 then 2 else if r <? 65536 then 3 else 4.

(** The error of the underlying byte source, which [ReadRune] passes on. *)
Inductive ioerror : Type := ReadFailure.

Definition ReadRune (rd : Reader) : (rune * Z * option ioerror) * Reader :=
  match pending rd with
  | [] => ((EOF, 0, None), rd)
  | r :: rest => ((r, runeLen r, None), mkReader rest)
  end.

End buffruneio.

(** ** Number parsing

    [strconv.ParseInt] of Go's standard library at base 16, for a bit size
    between 1 and 64: an optional sign, then at least one ASCII hexadecimal
    digit and nothing else; [None] is a syntax or range error. *)
Module strconv.

Definition hexDigitValue (c : rune) : option Z :=
  if (48 <=? c) && (c <=? 57) then Some (c - 48)
  else if (97 <=? c) && (c <=? 102) then Some (c - 87)
  else if (65 <=? c) && (c <=? 70) then Some (c - 55)
  else None.

Fixpoint parseHexDigits (acc : Z) (s : gostring) : option Z :=
  match s with
  | [] => Some acc
  | c :: s' =>
      match hexDigitValue c with
      | Some d => parseHexDigits (16 * acc + d) s'
      | None => None
      end
  end.

Definition ParseInt16 (s : gostring) (bitSize : Z) : option Z :=
  match s with
  | [] => None
  | c :: s' =>
      let neg := c =? 45 in
      let body := if (c =? 43) || (c =? 45) then s' else s in
      match body with
      | [] => None
      | _ :: _ =>
          match parseHexDigits 0 body with
          | None => None
          | Some un =>
              let cutoff := 2 ^ (bitSize - 1) in
              if negb neg && (un >=? cutoff) then None
              else if neg && (un >? cutoff) then None
              else Some (if neg then - un else un)
          end
      end
  end.

End strconv.

Module Toml2.

(** ** Errors

    One constructor per [fmt.Errorf] call of the source, holding the values
    the format string prints. *)
Inductive error : Type :=
| ErrNotPointer                      (* "toml: argument to Decode needs to be a pointer" *)
| ErrNilPointer                      (* "toml: argument to Decode cannot be nil" *)
| ErrKey (e : error)                 (* "toml: key: %s" *)
| ErrExpectedEq (r : rune)           (* "toml: key: expected = after key. found %c" *)
| ErrUnexpectedTopLevel (r : rune)   (* "toml: unexpected top level character: %c" *)
| ErrLiteralKey (e : error)          (* "toml: literal key: %s" *)
| ErrQuotedKey (e : error)           (* "toml: quoted key: %s" *)
| ErrEmptyKey                        (* "toml: key cannot be empty" *)
| ErrUnfinishedLiteral               (* "unfinished literal" *)
| ErrUnfinishedString                (* "unifnished string" *)
| ErrUnfinishedEscape                (* "unfishied escape sequence" *)
| ErrInvalid4 (e : error)            (* "invalid 4-char unicode escape sequence: %s" *)
| ErrInvalid8 (e : error)            (* "invalid 8-char unicode escape sequence: %s" *)
| ErrUnescapedControl (r : rune)     (* "unescaped control character %U" *)
| ErrUnfinishedSequence              (* "unfinished sequence" *)
| ErrIncorrectCharacter (c : rune)   (* "incorrect character %c" *)
| ErrInvalidCode (code : gostring)   (* "invalid: \\u%s" *)
| ErrUnfinishedDocument              (* "toml: unfinished document", the panic of peek *)
| ErrRead (err : option buffruneio.ioerror)  (* "toml: read: %s", the panic of read *)
| ErrMakeSlice                       (* runtime error: makeslice: cap out of range *)
| ErrIndexOutOfRange.                (* runtime error: index out of range *)

(** The error kinds of the specification (its section 7), and the kind each
    message of the source falls under.  Wrapping messages take the kind of
    the error they wrap; the two argument checks of [Decode] and the runtime
    errors have no kind. *)
Inductive ErrorKind : Type :=
| EncodingError | EmptyKeyError | InvalidCharacter | UnterminatedString
| InvalidEscape | IncompleteEscape | InvalidHexDigit | InvalidCodePoint
| InvalidValue | KeyValueSyntaxError | UnexpectedCharacter | TrailingContent
| DuplicateKey | DuplicateTable | UnexpectedEndOfInput | UnknownKey.

Fixpoint kindOf (e : error) : option ErrorKind :=
  match e with
  | ErrNotPointer | ErrNilPointer => None
  | ErrKey e' | ErrLiteralKey e' | ErrQuotedKey e'
  | ErrInvalid4 e' | ErrInvalid8 e' => kindOf e'
  | ErrExpectedEq _ => Some KeyValueSyntaxError
  | ErrUnexpectedTopLevel _ => Some UnexpectedCharacter
  | ErrEmptyKey => Some EmptyKeyError
  | ErrUnfinishedLiteral | ErrUnfinishedString | ErrUnfinishedEscape =>
      Some UnterminatedString
  | ErrUnescapedControl _ => Some InvalidCharacter
  | ErrUnfinishedSequence => Some IncompleteEscape
  | ErrIncorrectCharacter _ => Some InvalidHexDigit
  | ErrInvalidCode _ => Some InvalidCodePoint
  | ErrUnfinishedDocument | ErrRead _ => Some UnexpectedEndOfInput
  | ErrMakeSlice | ErrIndexOutOfRange => None
  end.

(** ** The decoder and its computations *)

Record Decoder := mkDecoder { reader : buffruneio.Reader }.

Definition NewDecoder (input : list rune) : Decoder :=
  mkDecoder (buffruneio.NewReader input).

Inductive outcome (A : Type) : Type :=
| Returned (a : A) (dec : Decoder)
| Panicked (e : error)
| Diverged.

Arguments Panicked {A} e.
Arguments Diverged {A}.

Definition M (A : Type) : Type := Decoder -> outcome A.

Definition ret {A} (a : A) : M A := fun dec => Returned a dec.

Definition bind {A B} (m : M A) (k : A -> M B) : M B :=
  fun dec =>
    match m dec with
    | Returned a dec' => k a dec'
    | Panicked e => Panicked e
    | Diverged => Diverged
    end.

Definition panic {A} (e : error) : M A := fun _ => Panicked e.

Definition diverge {A} : M A := fun _ => Diverged.

Notation "x <- m ;; k" := (bind m (fun x => k))
  (at level 61, m at next level, right associativity).
Notation "m ;;; k" := (bind m (fun _ => k))
  (at level 61, right associativity).

(** ** Constants *)

Definition eof : rune := -1.
Definition tab : rune := 9.
Definition space : rune := 32.
Definition lf : rune := 10.
Definition cr : rune := 13.

(** ** Stream primitives *)

(* func (dec *Decoder) peek() rune *)
Definition peek : M rune :=
  fun dec =>
    match buffruneio.PeekRunes 1 (reader dec) with
    | [r] => Returned r dec
    | _ => Panicked ErrUnfinishedDocument
    end.

(** [PeekRunes] of the reader starts with [make([]rune, 0, n)], which panics
    for a negative [n] and for a capacity above the runtime's limit: on a
    64-bit platform the limit is 2^48 bytes, that is 2^46 runes of four
    bytes. *)
Definition maxSliceCap : Z := 70368744177664.

(* func (dec *Decoder) peekRunes(n int) []rune *)
Definition peekRunes (n : Z) : M (list rune) :=
  fun dec =>
    if (n <? 0) || (maxSliceCap <? n) then Panicked ErrMakeSlice
    else Returned (buffruneio.PeekRunes (Z.to_nat n) (reader dec)) dec.

(* func (dec *Decoder) read() rune: the panic statement stands between the
   call of ReadRune and the return, under no condition. *)
Definition read : M rune :=
  fun dec =>
    let '(r, _, err, rd) := buffruneio.ReadRune (reader dec) in
    (panic (A := unit) (ErrRead err) ;;; ret r) (mkDecoder rd).

(** ** Character classes *)

Definition isRuneWhitespace (r : rune) : bool :=
  (r =? space) || (r =? tab).

Definition isStartOfKey (r : rune) : bool :=
  ((r >=? ch "a") && (r <=? ch "z")) || ((r >=? ch "A") && (r <=? ch "Z")) ||
  ((r >=? ch "0") && (r <=? ch "9")) ||
  (r =? ch "-") || (r =? ch "_") ||
  (r =? squote) || (r =? dquote).

(** [unicode.IsLetter] and [unicode.IsNumber] consult the Unicode tables of
    Go's standard library, which are not part of the repository.  They are
    taken as parameters; what is known of them is their value on ASCII
    (letters are A-Z and a-z, numbers are 0-9) and that [eof] is in neither
    table. *)
Definition asciiLetter (r : rune) : bool :=
  ((65 <=? r) && (r <=? 90)) || ((97 <=? r) && (r <=? 122)).

Definition asciiDigit (r : rune) : bool :=
  (48 <=? r) && (r <=? 57).

Class UnicodeTables : Type := {
  IsLetter : rune -> bool;
  IsNumber : rune -> bool;
  IsLetter_ascii : forall r, 0 <= r < 128 -> IsLetter r = asciiLetter r;
  IsNumber_ascii : forall r, 0 <= r < 128 -> IsNumber r = asciiDigit r;
  IsLetter_eof : IsLetter eof = false;
  IsNumber_eof : IsNumber eof = false
}.

Section Parsers.

Context {U : UnicodeTables}.

Definition isDigit (r : rune) : bool := IsNumber r.

Definition isHexDigit (r : rune) : bool :=
  isDigit r ||
  ((r >=? ch "a") && (r <=? ch "f")) ||
  ((r >=? ch "A") && (r <=? ch "F")).

Definition isAlphanumeric (r : rune) : bool :=
  IsLetter r || (r =? ch "_").

Definition isValidBareKeyChar (r : rune) : bool :=
  isAlphanumeric r || (r =? ch "-") || IsNumber r.

(** ** Trivia *)

(* func (dec *Decoder) skipWhitespace(): the loop has a break for eof and a
   continue after reading a blank; any other rune falls off the end of the
   body and the loop goes round again. *)
Fixpoint skipWhitespace (fuel : nat) : M unit :=
  match fuel with
  | O => diverge
  | S fuel' =>
      r <- peek ;;
      if r =? eof then ret tt
      else if isRuneWhitespace r then read ;;; skipWhitespace fuel'
      else skipWhitespace fuel'
  end.

Definition isCRLF (rs : list rune) : bool :=
  match rs with
  | [a; b] => (a =? cr) && (b =? lf)
  | _ => false
  end.

Definition isSingle (x : rune) (rs : list rune) : bool :=
  match rs with
  | [a] => a =? x
  | _ => false
  end.

(* The inner loop of skipWhitespaceAndNewlinesAndComments, after the # was read. *)
Fixpoint skipCommentBody (fuel : nat) : M unit :=
  match fuel with
  | O => diverge
  | S fuel' =>
      rs <- peekRunes 2 ;;
      if isCRLF rs then read ;;; read ;;; ret tt
      else if isSingle lf rs then read ;;; ret tt
      else if isSingle eof rs then ret tt
      else skipCommentBody fuel'
  end.

(* func (dec *Decoder) skipWhitespaceAndNewlinesAndComments() *)
Fixpoint skipWhitespaceAndNewlinesAndComments (fuel : nat) : M unit :=
  match fuel with
  | O => diverge
  | S fuel' =>
      r <- peek ;;
      if r =? eof then ret tt
      else if isRuneWhitespace r || (r =? lf) then
        read ;;; skipWhitespaceAndNewlinesAndComments fuel'
      else
        again <- (if r =? cr then
                    rs <- peekRunes 2 ;;
                    if isCRLF rs then read ;;; read ;;; ret true else ret false
                  else ret false) ;;
        if again : bool then skipWhitespaceAndNewlinesAndComments fuel'
        else
          (if r =? ch "#" then read ;;; skipCommentBody fuel' else ret tt) ;;;
          ret tt
  end.

(** ** Strings *)

(* func (dec *Decoder) parseLiteralString() (string, error): the loop of the
   source, with growingString as its accumulator.  The last statement of the
   body appends the rune that was peeked; nothing reads it. *)
Fixpoint literalLoop (fuel : nat) (growingString : gostring)
  : M (gostring * option error) :=
  match fuel with
  | O => diverge
  | S fuel' =>
      r <- peek ;;
      if r =? eof then ret ([], Some ErrUnfinishedLiteral)
      else if r =? squote then read ;;; ret (growingString, None)
      else literalLoop fuel' (growingString ++ string_of_rune r)
  end.

Definition parseLiteralString (fuel : nat) : M (gostring * option error) :=
  literalLoop fuel [].

(* for _, c := range hexRunes { dec.read(); if !isHexDigit(c) { return ... } } *)
Fixpoint readHexRunes (hexRunes : list rune) : M (option error) :=
  match hexRunes with
  | [] => ret None
  | c :: rest =>
      read ;;;
      if negb (isHexDigit c) then ret (Some (ErrIncorrectCharacter c))
      else readHexRunes rest
  end.

(* func (dec *Decoder) parseUnicodeEscapeSequence(length int) (string, error) *)
Definition parseUnicodeEscapeSequence (length : Z) : M (gostring * option error) :=
  hexRunes <- peekRunes length ;;
  if Z.of_nat (List.length hexRunes) <? length
  then ret ([], Some ErrUnfinishedSequence)
  else if length - 1 <? 0 then panic ErrIndexOutOfRange
  else
    match nth_error hexRunes (Z.to_nat (length - 1)) with
    | None => panic ErrIndexOutOfRange
    | Some last =>
        if last =? eof then ret ([], Some ErrUnfinishedSequence)
        else
          bad <- readHexRunes hexRunes ;;
          match bad with
          | Some err => ret ([], Some err)
          | None =>
              let code := string_of_runes hexRunes in
              match strconv.ParseInt16 code (length * 8) with
              | None => ret ([], Some (ErrInvalidCode code))
              | Some intcode =>
                  ret (string_of_rune (rune_of_int64 intcode), None)
              end
          end
    end.

Definition backslash : rune := 92.

(* The chain of conditionals on the rune e after a backslash, lines 180-206 of
   toml.go, in the order of the source; the chain has no final else. *)
Definition escape (e : rune) (growingString : gostring)
  : M (gostring * option error) :=
  if (e =? dquote) || (e =? backslash) || (e =? ch "/") || (e =? ch "b")
  then ret (growingString ++ string_of_rune e, None)
  else if e =? ch "b" then ret (growingString ++ [8], None)
  else if e =? ch "f" then ret (growingString ++ [12], None)
  else if e =? ch "n" then ret (growingString ++ [10], None)
  else if e =? ch "r" then ret (growingString ++ [13], None)
  else if e =? ch "t" then ret (growingString ++ [9], None)
  else if e =? ch "u" then
    read ;;;
    res <- parseUnicodeEscapeSequence 4 ;;
    match res with
    | (_, Some err) => ret ([], Some (ErrInvalid4 err))
    | (unicodeString, None) => ret (growingString ++ unicodeString, None)
    end
  else if e =? ch "U" then
    read ;;;
    res <- parseUnicodeEscapeSequence 8 ;;
    match res with
    | (_, Some err) => ret ([], Some (ErrInvalid8 err))
    | (unicodeString, None) => ret (growingString ++ unicodeString, None)
    end
  else ret (growingString, None).

(* func (dec *Decoder) parseQuotedString() (string, error) *)
Fixpoint quotedLoop (fuel : nat) (growingString : gostring)
  : M (gostring * option error) :=
  match fuel with
  | O => diverge
  | S fuel' =>
      r <- peek ;;
      if r =? eof then ret ([], Some ErrUnfinishedString)
      else if r =? dquote then read ;;; ret (growingString, None)
      else if r =? backslash then
        read ;;;
        e <- peek ;;
        if e =? eof then ret ([], Some ErrUnfinishedEscape)
        else
          res <- escape e growingString ;;
          match res with
          | (_, Some err) => ret ([], Some err)
          | (grown, None) => quotedLoop fuel' grown
          end
      else if (0 <=? r) && (r <=? 31) then ret ([], Some (ErrUnescapedControl r))
      else read ;;; quotedLoop fuel' (growingString ++ string_of_rune r)
  end.

Definition parseQuotedString (fuel : nat) : M (gostring * option error) :=
  quotedLoop fuel [].

(** ** Keys *)

(* The bare-key loop of parseSimpleKey. *)
Fixpoint bareKeyLoop (fuel : nat) (growingString : gostring) : M gostring :=
  match fuel with
  | O => diverge
  | S fuel' =>
      r <- peek ;;
      if isValidBareKeyChar r
      then read ;;; bareKeyLoop fuel' (growingString ++ string_of_rune r)
      else ret growingString
  end.

(* func (dec *Decoder) parseSimpleKey() (string, error) *)
Definition parseSimpleKey (fuel : nat) : M (gostring * option error) :=
  r <- peek ;;
  if r =? squote then
    read ;;;
    res <- parseLiteralString fuel ;;
    match res with
    | (_, Some err) => ret ([], Some (ErrLiteralKey err))
    | (key, None) => ret (key, None)
    end
  else if r =? dquote then
    read ;;;
    res <- parseQuotedString fuel ;;
    match res with
    | (_, Some err) => ret ([], Some (ErrQuotedKey err))
    | (key, None) =>
        if (List.length key =? 0)%nat then ret ([], Some ErrEmptyKey)
        else ret (key, None)
    end
  else
    growingString <- bareKeyLoop fuel [] ;;
    ret (growingString, None).

(* key += "." + keyPart *)
Definition appendKeyPart (key keyPart : gostring) : gostring :=
  key ++ [ch "."] ++ keyPart.

(* The loop of parseDottedKey. *)
Fixpoint dottedKeyLoop (fuel : nat) (key : gostring)
  : M (gostring * option error) :=
  match fuel with
  | O => diverge
  | S fuel' =>
      r <- peek ;;
      if negb (r =? ch ".") then ret (key, None)
      else
        read ;;;
        res <- parseSimpleKey fuel ;;
        match res with
        | (_, Some err) => ret ([], Some err)
        | (keyPart, None) => dottedKeyLoop fuel' (appendKeyPart key keyPart)
        end
  end.

(* func (dec *Decoder) parseDottedKey() (string, error) *)
Definition parseDottedKey (fuel : nat) : M (gostring * option error) :=
  res <- parseSimpleKey fuel ;;
  match res with
  | (_, Some err) => ret ([], Some err)
  | (key, None) => dottedKeyLoop fuel key
  end.

(** ** The driver *)

(** The argument [v interface{}] of [Decode], as [reflect] sees it: not a
    pointer, a nil pointer, or a pointer to the caller's target. *)
Inductive iface (T : Type) : Type :=
| NotPointer
| NilPointer
| Pointer (target : T).

Arguments NotPointer {T}.
Arguments NilPointer {T}.

(* func (dec *Decoder) Decode(v interface{}) error.  The result pairs the
   returned error with the caller's value as the call leaves it; no statement
   of Decode assigns through v. *)
Definition Decode {T : Type} (fuel : nat) (v : iface T)
  : M (option error * iface T) :=
  match v with
  | NotPointer => ret (Some ErrNotPointer, v)
  | NilPointer => ret (Some ErrNilPointer, v)
  | Pointer _ =>
      skipWhitespaceAndNewlinesAndComments fuel ;;;
      r <- peek ;;
      if r =? ch "[" then ret (None, v)
      else if isStartOfKey r then
        res <- parseDottedKey fuel ;;
        match res with
        | (_, Some err) => ret (Some (ErrKey err), v)
        | (key, None) =>
            skipWhitespace fuel ;;;
            r <- peek ;;
            if negb (r =? ch "=") then ret (Some (ErrExpectedEq r), v)
            else read ;;; skipWhitespace fuel ;;; ret (None, v)
        end
      else ret (Some (ErrUnexpectedTopLevel r), v)
  end.

(* func Unmarshal(data []byte, v interface{}) error; data is given by the
   runes that the reader decodes from it. *)
Definition Unmarshal {T : Type} (fuel : nat) (data : list rune) (v : iface T)
  : outcome (option error * iface T) :=
  Decode fuel v (NewDecoder data).

End Parsers.

(** A caller's target of the map kind: string keys bound to values, a value
    being a string or a nested table. *)
Inductive value : Type :=
| VString (s : gostring)
| VTable (t : table)
with table : Type :=
| Empty
| Bind (key : gostring) (v : value) (rest : table).

(** The root table that the specification (its section 4.6) assigns to an
    input made of the single header [[name]]: [name] bound to a new, empty
    table. *)
Definition specRootOfHeader (name : gostring) : table :=
  Bind name (VTable Empty) Empty.

(** The two-line input of the specification's duplicate-key example: the key
    [key] bound to the string a, a line feed, and [key] bound to the string b. *)
Definition twoBindings : list rune :=
  runes "key=" ++ [dquote] ++ runes "a" ++ [dquote; lf] ++
  runes "key=" ++ [dquote] ++ runes "b" ++ [dquote].

(** ASCII-only tables: an instance of the parameters, used to run the
    decoder on ASCII inputs. *)
#[refine] Instance asciiTables : UnicodeTables := {|
  IsLetter := fun r => asciiLetter r;
  IsNumber := fun r => asciiDigit r
|}.
Proof.
  all: reflexivity.
Defined.

End Toml2.

(** * The index match of the path query ([src/jpath/match.go]) *)

Module Jpath.

(** A node handed to a path functor, by its dynamic type: a tree, a slice of
    nodes ([[]interface{}]), or a value of any other type. *)
Inductive node : Type :=
| Tree (entries : list (gostring * node))
| Array (arr : list node)
| Leaf (text : gostring).

Section Functors.

(** The query context that the functors pass along ([*queryContext]). *)
Variable queryContext : Type.

(** What a call of a functor ends in: it returns, leaving a context; it
    stops in the runtime's index-out-of-range panic; or it stops in a panic
    raised by a functor itself. *)
Inductive result : Type :=
| Done (ctx : queryContext)
| IndexOutOfRange
| Panic.

(* type PathFn interface { ...; Call(node interface{}, ctx *queryContext) } *)
Record PathFn : Type := { Call : node -> queryContext -> result }.

(* type matchIndexFn struct { matchBase; Idx int } *)
Record matchIndexFn : Type := { next : PathFn; Idx : Z }.

(** Go's [arr[i]]: the element, or nothing when the runtime panics because
    [i] is out of range. *)
Definition elementAt (arr : list node) (i : Z) : option node :=
  if (0 <=? i) && (i <? Z.of_nat (List.length arr))
  then nth_error arr (Z.to_nat i)
  else None.

(* func (f *matchIndexFn) Call(node interface{}, ctx *queryContext) *)
Definition matchIndexFn_Call (f : matchIndexFn) (n : node) (ctx : queryContext)
  : result :=
  match n with
  | Array arr =>
      if (Idx f <? Z.of_nat (List.length arr)) && (Idx f >=? 0) then
        match elementAt arr (Idx f) with
        | Some x => Call (next f) x ctx
        | None => IndexOutOfRange
        end
      else Done ctx
  | _ => Done ctx
  end.

(** The index of [f] selects an element of [n]: [n] is an array and the
    index is within its bounds. *)
Definition selects (f : matchIndexFn) (n : node) : Prop :=
  exists arr, n = Array arr /\ 0 <= Idx f < Z.of_nat (List.length arr).

End Functors.

(* func (f *terminatingFn) Call: gathers the node in the results of the
   context, here the list of the nodes gathered so far. *)
Definition terminatingFn : PathFn (list node) :=
  {| Call := fun n ctx => Done (ctx ++ [n]) |}.

End Jpath.

Import Toml2.

(** * What the decoder sees next *)

(** The rune that [peek] returns: the one under the cursor, [eof] at the end. *)
Definition nextRune (dec : Decoder) : rune :=
  hd eof (buffruneio.pending (reader dec)).

(** The input starts with a carriage return and a line feed. *)
Definition startsCRLF (input : list rune) : bool :=
  match input with
  | a :: b :: _ => (a =? cr) && (b =? lf)
  | _ => false
  end.

(** The input starts with something the top-level skipper sets out to
    consume: a blank, a line feed, CR LF or the # of a comment. *)
Definition startsTrivia (input : list rune) : bool :=
  match input with
  | [] => false
  | r :: _ => isRuneWhitespace r || (r =? lf) || startsCRLF input || (r =? ch "#")
  end.

(** The runes at which the key parser calls [read]: the two quotes and the
    runes of a bare key. *)
Definition startsKeyText {U : UnicodeTables} (r : rune) : bool :=
  (r =? squote) || (r =? dquote) || isValidBareKeyChar r.

(** The runes the escape chain of [parseQuotedString] has a branch for. *)
Definition escapeRunes : list rune :=
  [dquote; backslash; ch "/"; ch "b"; ch "f"; ch "n"; ch "r"; ch "t";
   ch "u"; ch "U"].

(** * The earlier revision of the decoder ([src/unnamed/part_000])

    The file is an earlier state of [toml.go]: its helpers are the ones
    above, word for word, and its [Decode] parses the key in place. *)
Module Draft.

(** The errors of this revision: those of [toml.go], and the key error that
    formats the key string where the later revision formats the error. *)
Inductive error : Type :=
| Common (e : Toml2.error)
| ErrKeyText (key : gostring).       (* "toml: key: %s" with the key *)

(* func (dec *Decoder) Decode(v interface{}) error, lines 39-88 of part_000 *)
Definition Decode {T : Type} (fuel : nat) (v : iface T)
  : M (option error * iface T) :=
  match v with
  | NotPointer _ => ret (Some (Common ErrNotPointer), v)
  | NilPointer _ => ret (Some (Common ErrNilPointer), v)
  | Pointer _ =>
      skipWhitespaceAndNewlinesAndComments fuel ;;;
      r <- peek ;;
      if r =? ch "[" then ret (None, v)
      else if isStartOfKey r then
        failed <- (if r =? squote then
                     read ;;;
                     res <- parseLiteralString fuel ;;
                     match res with
                     | (key, Some _) => ret (Some (ErrKeyText key))
                     | (_, None) => ret None
                     end
                   else if r =? dquote then read ;;; ret None
                   else ret None) ;;
        match failed with
        | Some e => ret (Some e, v)
        | None =>
            skipWhitespace fuel ;;;
            r <- peek ;;
            if negb (r =? ch "=") then ret (Some (Common (ErrExpectedEq r)), v)
            else read ;;; skipWhitespace fuel ;;; ret (None, v)
        end
      else ret (Some (Common (ErrUnexpectedTopLevel r)), v)
  end.

End Draft.

(** * The slice and union matches of the path query ([src/jpath/match.go]) *)

Module JpathLoops.

Import Jpath.

(** Go's [int] on a 64-bit platform: the sum of two ints wraps around. *)
Definition wrapInt (z : Z) : Z :=
  (z + 9223372036854775808) mod 18446744073709551616 - 9223372036854775808.

Definition minInt : Z := -9223372036854775808.
Definition maxInt : Z := 9223372036854775807.

Section Loops.

Variable queryContext : Type.

(* for _, v := range xs { next.Call(v, ctx) }: the calls in order, each on the
   context the one before left; a panic ends the loop. *)
Fixpoint callEach (next : PathFn queryContext) (xs : list node)
  (ctx : queryContext) : result queryContext :=
  match xs with
  | [] => Done ctx
  | x :: rest =>
      match Call next x ctx with
      | Done ctx' => callEach next rest ctx'
      | stopped => stopped
      end
  end.

(* type matchSliceFn struct { matchBase; Start, End, Step int } *)
Record matchSliceFn : Type :=
  { sliceNext : PathFn queryContext; Start : Z; End : Z; Step : Z }.

(* for idx := realStart; idx < realEnd; idx += f.Step { f.next.Call(arr[idx], ctx) }
   [None] when the iterations allowed do not finish the loop. *)
Fixpoint sliceLoop (fuel : nat) (next : PathFn queryContext) (arr : list node)
  (step idx realEnd : Z) (ctx : queryContext) : option (result queryContext) :=
  match fuel with
  | O => None
  | S fuel' =>
      if idx <? realEnd then
        match elementAt arr idx with
        | None => Some (IndexOutOfRange queryContext)
        | Some x =>
            match Call next x ctx with
            | Done ctx' => sliceLoop fuel' next arr step (wrapInt (idx + step)) realEnd ctx'
            | stopped => Some stopped
            end
        end
      else Some (Done ctx)
  end.

(* func (f *matchSliceFn) Call(node interface{}, ctx *queryContext) *)
Definition matchSliceFn_Call (fuel : nat) (f : matchSliceFn) (n : node)
  (ctx : queryContext) : option (result queryContext) :=
  match n with
  | Array arr =>
      let len := Z.of_nat (List.length arr) in
      let realStart := if Start f <? 0 then len + Start f else Start f in
      let realEnd := if End f <? 0 then len + End f else End f in
      if realEnd <? realStart
      then sliceLoop fuel (sliceNext f) arr (Step f) realEnd realStart ctx
      else sliceLoop fuel (sliceNext f) arr (Step f) realStart realEnd ctx
  | _ => Some (Done ctx)
  end.

(* type matchUnionFn struct { Union []PathFn } *)
Record matchUnionFn : Type := { Union : list (PathFn queryContext) }.

(* for _, fn := range f.Union { fn.Call(node, ctx) } *)
Fixpoint unionLoop (fns : list (PathFn queryContext)) (n : node)
  (ctx : queryContext) : result queryContext :=
  match fns with
  | [] => Done ctx
  | fn :: rest =>
      match Call fn n ctx with
      | Done ctx' => unionLoop rest n ctx'
      | stopped => stopped
      end
  end.

(* func (f *matchUnionFn) Call(node interface{}, ctx *queryContext) *)
Definition matchUnionFn_Call (f : matchUnionFn) (n : node) (ctx : queryContext)
  : result queryContext :=
  unionLoop (Union f) n ctx.

(** A [matchIndexFn] as a [PathFn], the way it sits in a union. *)
Definition indexFn (next : PathFn queryContext) (idx : Z) : PathFn queryContext :=
  {| Call := matchIndexFn_Call {| Jpath.next := next; Idx := idx |} |}.

(** The next functor returns from every call: it raises no panic. *)
Definition returns (next : PathFn queryContext) : Prop :=
  forall (x : node) (ctx : queryContext), exists ctx', Call next x ctx = Done ctx'.

(** The elements of [arr] at the indices [start], [start + step], ... below
    [stop], in that order. *)
Definition strided (arr : list node) (start stop step : Z) : list node :=
  flat_map
    (fun k => match elementAt arr (start + Z.of_nat k * step) with
              | Some x => [x]
              | None => []
              end)
    (seq 0 (Z.to_nat ((stop - start + step - 1) / step))).

(** The elements of [arr] at the indices [idxs] that are within its bounds,
    in the order of [idxs]. *)
Definition pick (arr : list node) (idxs : list Z) : list node :=
  flat_map (fun i => match elementAt arr i with Some x => [x] | None => [] end) idxs.

End Loops.

End JpathLoops.

(** * Properties *)

(** ** Computations *)

Lemma bind_Returned {A B} (m : M A) (k : A -> M B) (dec dec' : Decoder) (b : B) :
  bind m k dec = Returned b dec' ->
  exists a d, m dec = Returned a d /\ k a d = Returned b dec'.
Proof.
  unfold bind. destruct (m dec) as [a d| |]; try discriminate.
  intros H. exists a, d. split; [reflexivity | exact H].
Qed.

Lemma ret_Returned {A} (a b : A) (dec dec' : Decoder) :
  ret a dec = Returned b dec' -> a = b /\ dec = dec'.
Proof. unfold ret. intros H. injection H as -> ->. split; reflexivity. Qed.

(** Splits a hypothesis on a sequence of calls that returned into one
    hypothesis for each call. *)
Ltac invert_bind H :=
  let a := fresh "a" in
  let d := fresh "d" in
  let H1 := fresh "Hcall" in
  apply bind_Returned in H; destruct H as (a & d & H1 & H).

(** ** Stream primitives *)

Lemma read_panics (dec : Decoder) : read dec = Panicked (ErrRead None).
Proof.
  unfold read, buffruneio.ReadRune.
  destruct (buffruneio.pending (reader dec)); reflexivity.
Qed.

Lemma bind_read {A} (k : rune -> M A) (dec : Decoder) :
  (x <- read ;; k x) dec = Panicked (ErrRead None).
Proof. unfold bind. rewrite read_panics. reflexivity. Qed.

Lemma peek_cons (r : rune) (rest : list rune) :
  peek (NewDecoder (r :: rest)) = Returned r (NewDecoder (r :: rest)).
Proof.
  unfold peek, NewDecoder, buffruneio.PeekRunes, buffruneio.NewReader. simpl.
  destruct (r =? buffruneio.EOF); reflexivity.
Qed.

Lemma peek_nil : peek (NewDecoder []) = Returned eof (NewDecoder []).
Proof. reflexivity. Qed.

(** [peek] returns the rune under the cursor, [eof] at the end, and leaves
    the decoder as it was. *)
Lemma peek_pure (dec : Decoder) :
  peek dec = Returned (hd eof (buffruneio.pending (reader dec))) dec.
Proof.
  destruct dec as [[p]]. unfold peek, buffruneio.PeekRunes. simpl.
  destruct p as [|r rest]; simpl; [reflexivity|].
  destruct (r =? buffruneio.EOF); reflexivity.
Qed.

(** C1. [read] is meant to return one rune and to fail only at the end of the
    input.  As written it panics on every call: with input left, here with
    any rune [r] under the cursor, the call does not return [r] but panics
    with the read message (and a nil error inside it). *)
Theorem read_panics_with_input_left (r : rune) (rest : list rune) :
  read (NewDecoder (r :: rest)) = Panicked (ErrRead None).
Proof. apply read_panics. Qed.

(** ** Trivia *)

(** C3. The trivia skipper is meant to clear a run of blank lines and
    comments in one call.  On two blank lines it clears nothing: the first
    line feed is peeked, and the [read] that should consume it panics. *)
Theorem skipTrivia_panics_on_blank_lines (fuel : nat) :
  skipWhitespaceAndNewlinesAndComments (S fuel) (NewDecoder [lf; lf])
  = Panicked (ErrRead None).
Proof. reflexivity. Qed.

(** ** Literal strings *)

(** While the rune under the cursor is neither [eof] nor the closing quote,
    the loop of [parseLiteralString] appends it and goes round without
    reading it: no iteration budget suffices. *)
Lemma literalLoop_stuck (fuel : nat) :
  forall (growingString : gostring) (r : rune) (rest : list rune),
    r <> eof -> r <> squote ->
    literalLoop fuel growingString (NewDecoder (r :: rest)) = Diverged.
Proof.
  induction fuel as [|fuel IH]; intros g r rest Heof Hq; [reflexivity|].
  cbn [literalLoop]. unfold bind at 1. rewrite peek_cons.
  destruct (Z.eqb_spec r eof); [contradiction|].
  destruct (Z.eqb_spec r squote); [contradiction|].
  apply IH; assumption.
Qed.

(** C4. [parseLiteralString] is meant to terminate on every finite input.
    After the opening quote of ['abc] the remaining input is [abc]: the call
    does not finish within any budget, and it does not on [abc'] either,
    where a closing quote follows. *)
Theorem parseLiteralString_diverges_on_abc (fuel : nat) :
  parseLiteralString fuel (NewDecoder (runes "abc")) = Diverged /\
  parseLiteralString fuel (NewDecoder (runes "abc'")) = Diverged.
Proof.
  split; apply literalLoop_stuck; discriminate.
Qed.

(** ** Basic strings *)

Section DecoderFacts.

Context {U : UnicodeTables}.

Lemma escape_solidus (g : gostring) (dec : Decoder) :
  escape (ch "/") g dec = Returned (g ++ [ch "/"], None) dec.
Proof. reflexivity. Qed.

Lemma escape_b (g : gostring) (dec : Decoder) :
  escape (ch "b") g dec = Returned (g ++ [ch "b"], None) dec.
Proof. reflexivity. Qed.

Lemma escape_other (g : gostring) (dec : Decoder) :
  escape (ch "q") g dec = Returned (g, None) dec.
Proof. reflexivity. Qed.

(** C5. The escape dispatch is meant to accept exactly the nine escape
    characters and to fail with InvalidEscape on any other.  On the string
    body [\q] followed by the closing quote the parser panics in the [read]
    of the backslash.  The chain of conditionals itself returns no error for
    [q], accepts [/], and maps [b] to the letter b in its first branch, so
    that the backspace branch after it is never taken. *)
Theorem parseQuotedString_escape_q (fuel : nat) (g : gostring) (dec : Decoder) :
  parseQuotedString (S fuel) (NewDecoder ([backslash; ch "q"; dquote]))
  = Panicked (ErrRead None) /\
  escape (ch "q") g dec = Returned (g, None) dec /\
  escape (ch "/") g dec = Returned (g ++ [ch "/"], None) dec /\
  escape (ch "b") g dec = Returned (g ++ [ch "b"], None) dec /\
  escape (ch "b") g dec <> Returned (g ++ [8], None) dec.
Proof.
  repeat split.
  rewrite escape_b. intros H. injection H as H.
  apply app_inv_head in H. discriminate.
Qed.

Lemma peekFrom_short (n : nat) :
  forall input : list rune,
    (List.length input < n)%nat ->
    (List.length (buffruneio.peekFrom n input) < n)%nat \/
    nth_error (buffruneio.peekFrom n input) (n - 1) = Some eof.
Proof.
  induction n as [|n IH]; intros input Hlen; [lia|].
  destruct input as [|r rest]; cbn [buffruneio.peekFrom].
  - destruct n; [right; reflexivity | left; simpl; lia].
  - destruct (r =? buffruneio.EOF).
    + destruct n; [simpl in Hlen; lia | left; simpl; lia].
    + simpl in Hlen. destruct (IH rest) as [Hs|Hl]; [lia| |].
      * left. simpl. lia.
      * destruct n; [simpl in Hlen; lia|]. right.
        replace (S (S n) - 1)%nat with (S (S n - 1)) by lia. exact Hl.
Qed.

Lemma peekRunes_within_cap (n : Z) (dec : Decoder) :
  0 <= n <= maxSliceCap ->
  peekRunes n dec
  = Returned (buffruneio.PeekRunes (Z.to_nat n) (reader dec)) dec.
Proof.
  intros Hn. unfold peekRunes.
  destruct (Z.ltb_spec n 0); [lia|].
  destruct (Z.ltb_spec maxSliceCap n); [lia|].
  reflexivity.
Qed.

(** For a length from 1 to 8 (the code asks for 4 and for 8): when fewer
    than [length] runes are left before the end of the input,
    [parseUnicodeEscapeSequence length] returns the unfinished-sequence
    error, of the kind IncompleteEscape, and the decoder is as it was. *)
Theorem parseUnicodeEscapeSequence_incomplete (length : Z) (input : list rune) :
  0 < length <= 8 ->
  Z.of_nat (List.length input) < length ->
  parseUnicodeEscapeSequence length (NewDecoder input)
  = Returned ([], Some ErrUnfinishedSequence) (NewDecoder input) /\
  kindOf ErrUnfinishedSequence = Some IncompleteEscape.
Proof.
  intros Hpos Hlen. split; [|reflexivity].
  unfold parseUnicodeEscapeSequence.
  unfold bind. rewrite peekRunes_within_cap by (unfold maxSliceCap; lia).
  unfold buffruneio.PeekRunes. cbn [NewDecoder reader buffruneio.NewReader buffruneio.pending].
  destruct (Z.ltb_spec (Z.of_nat (List.length (buffruneio.peekFrom (Z.to_nat length) input))) length);
    [reflexivity|].
  destruct (Z.ltb_spec (length - 1) 0); [lia|].
  destruct (peekFrom_short (n := Z.to_nat length) input) as [Hs|Hl]; [lia|lia|].
  replace (Z.to_nat (length - 1)) with (Z.to_nat length - 1)%nat by lia.
  rewrite Hl. reflexivity.
Qed.

(** A raw control character, U+0000 to U+001F, under the cursor makes
    [parseQuotedString] return the unescaped-control-character error, of the
    kind InvalidCharacter, and nothing is read. *)
Theorem parseQuotedString_control_character
  (fuel : nat) (r : rune) (rest : list rune) :
  0 <= r <= 31 ->
  parseQuotedString (S fuel) (NewDecoder (r :: rest))
  = Returned ([], Some (ErrUnescapedControl r)) (NewDecoder (r :: rest)) /\
  kindOf (ErrUnescapedControl r) = Some InvalidCharacter.
Proof.
  intros Hr. split; [|reflexivity].
  unfold parseQuotedString. cbn [quotedLoop]. unfold bind at 1. rewrite peek_cons.
  destruct (Z.eqb_spec r eof) as [E|_]; [unfold eof in E; lia|].
  destruct (Z.eqb_spec r dquote) as [E|_]; [unfold dquote in E; lia|].
  destruct (Z.eqb_spec r backslash) as [E|_]; [unfold backslash in E; lia|].
  destruct (Z.leb_spec 0 r); [|lia].
  destruct (Z.leb_spec r 31); [|lia].
  reflexivity.
Qed.

(** C6. [parseUnicodeEscapeSequence 4] on the digits [D800] is meant to fail
    with InvalidCodePoint.  The four runes are peeked, and the [read] of the
    first one panics. *)
Theorem parseUnicodeEscapeSequence_D800 :
  parseUnicodeEscapeSequence 4 (NewDecoder (runes "D800"))
  = Panicked (ErrRead None).
Proof. reflexivity. Qed.

(** ** Keys *)

Lemma not_bare_key_char_eq : isValidBareKeyChar (ch "=") = false.
Proof.
  unfold isValidBareKeyChar, isAlphanumeric.
  rewrite IsLetter_ascii, IsNumber_ascii by (vm_compute; split; congruence).
  reflexivity.
Qed.

(** C8. A bare key of zero characters is meant to fail with EmptyKeyError.
    On the input [= 1] the bare-key branch consumes nothing and the call
    returns the empty key with a nil error; only the branch of the
    double-quoted key tests for an empty key. *)
Theorem parseSimpleKey_empty_bare_key (fuel : nat) :
  parseSimpleKey (S fuel) (NewDecoder (runes "= 1"))
  = Returned ([], None) (NewDecoder (runes "= 1")).
Proof.
  change (runes "= 1") with (ch "=" :: runes " 1").
  unfold parseSimpleKey, bind at 1. rewrite peek_cons.
  change (ch "=" =? squote) with false. change (ch "=" =? dquote) with false.
  cbv iota. cbn [bareKeyLoop]. unfold bind. rewrite peek_cons.
  rewrite not_bare_key_char_eq. reflexivity.
Qed.

End DecoderFacts.


(** ** Runs on concrete inputs

    The decoder is run on ASCII inputs with the ASCII tables, on inputs that
    meet the hypotheses of the theorems above. *)

Lemma parseUnicodeEscapeSequence_incomplete_witness :
  parseUnicodeEscapeSequence (U := asciiTables) 4 (NewDecoder (runes "D8"))
  = Returned ([], Some ErrUnfinishedSequence) (NewDecoder (runes "D8")) /\
  kindOf ErrUnfinishedSequence = Some IncompleteEscape.
Proof.
  apply (parseUnicodeEscapeSequence_incomplete (U := asciiTables) (length := 4) (runes "D8")).
  - lia.
  - simpl. lia.
Defined.

Lemma parseQuotedString_control_character_witness :
  parseQuotedString (U := asciiTables) 1 (NewDecoder [lf; dquote])
  = Returned ([], Some (ErrUnescapedControl lf)) (NewDecoder [lf; dquote]) /\
  kindOf (ErrUnescapedControl lf) = Some InvalidCharacter.
Proof.
  apply (parseQuotedString_control_character (U := asciiTables) 0 (r := lf) [dquote]).
  unfold lf. lia.
Defined.

(** * Properties of the index match *)

Import Jpath.

Section IndexMatch.

Variable queryContext : Type.

Lemma elementAt_in_range (arr : list node) (i : Z) :
  0 <= i < Z.of_nat (List.length arr) ->
  exists x, elementAt arr i = Some x /\ nth_error arr (Z.to_nat i) = Some x.
Proof.
  intros Hi. unfold elementAt.
  destruct (Z.leb_spec 0 i); [|lia].
  destruct (Z.ltb_spec i (Z.of_nat (List.length arr))); [|lia].
  cbn [andb].
  destruct (nth_error arr (Z.to_nat i)) as [x|] eqn:E.
  - exists x. split; reflexivity.
  - apply nth_error_None in E. lia.
Qed.

(** C10. [matchIndexFn.Call] hands to the next functor the element at its
    index when the node is an array and the index is within the bounds, and
    it is that call; in every other case it returns with the context as it
    was; and an index-out-of-range panic, if there is one, comes from the
    next functor, not from the access [arr[f.Idx]]. *)
Theorem matchIndexFn_Call_within_bounds
  (f : matchIndexFn queryContext) (n : node) (ctx : queryContext) :
  (selects f n ->
   exists arr x, n = Array arr /\ nth_error arr (Z.to_nat (Idx f)) = Some x /\
                 matchIndexFn_Call f n ctx = Call (next f) x ctx) /\
  (~ selects f n -> matchIndexFn_Call f n ctx = Done ctx) /\
  (matchIndexFn_Call f n ctx = IndexOutOfRange queryContext ->
   exists x, Call (next f) x ctx = IndexOutOfRange queryContext).
Proof.
  split; [|split].
  - intros (arr & -> & Hi).
    destruct (elementAt_in_range arr Hi) as (x & Ex & En).
    exists arr, x. repeat split; [assumption|].
    cbn [matchIndexFn_Call].
    destruct (Z.ltb_spec (Idx f) (Z.of_nat (List.length arr))); [|lia].
    destruct (Z.geb_spec (Idx f) 0); [|lia].
    cbn [andb]. rewrite Ex. reflexivity.
  - intros Hn. destruct n as [entries|arr|text]; try reflexivity.
    cbn [matchIndexFn_Call].
    destruct (Z.ltb_spec (Idx f) (Z.of_nat (List.length arr))); [|reflexivity].
    destruct (Z.geb_spec (Idx f) 0); [|reflexivity].
    exfalso. apply Hn. exists arr. split; [reflexivity | lia].
  - destruct n as [entries|arr|text]; try discriminate.
    cbn [matchIndexFn_Call].
    destruct (Z.ltb_spec (Idx f) (Z.of_nat (List.length arr))); [|discriminate].
    destruct (Z.geb_spec (Idx f) 0); [|discriminate].
    cbn [andb].
    destruct (elementAt_in_range arr (i := Idx f)) as (x & Ex & _); [lia|].
    rewrite Ex. intros Hp. exists x. exact Hp.
Qed.

End IndexMatch.

Lemma matchIndexFn_Call_within_bounds_witness :
  selects {| next := terminatingFn; Idx := 1 |}
          (Array [Leaf (runes "a"); Leaf (runes "b")]) /\
  (exists arr x,
      Array [Leaf (runes "a"); Leaf (runes "b")] = Array arr /\
      nth_error arr (Z.to_nat 1) = Some x /\
      matchIndexFn_Call {| next := terminatingFn; Idx := 1 |}
                        (Array [Leaf (runes "a"); Leaf (runes "b")]) []
      = Call terminatingFn x []) /\
  ~ selects {| next := terminatingFn; Idx := 2 |}
            (Array [Leaf (runes "a"); Leaf (runes "b")]) /\
  matchIndexFn_Call {| next := terminatingFn; Idx := 2 |}
                    (Array [Leaf (runes "a"); Leaf (runes "b")]) []
  = Done [].
Proof.
  assert (Hin : selects {| next := terminatingFn; Idx := 1 |}
                        (Array [Leaf (runes "a"); Leaf (runes "b")])).
  { exists [Leaf (runes "a"); Leaf (runes "b")]. split; [reflexivity|]. simpl. lia. }
  assert (Hout : ~ selects {| next := terminatingFn; Idx := 2 |}
                           (Array [Leaf (runes "a"); Leaf (runes "b")])).
  { intros (arr & E & Hi). injection E as <-. simpl in Hi. lia. }
  split; [exact Hin|]. split.
  - exact (proj1 (matchIndexFn_Call_within_bounds
                    {| next := terminatingFn; Idx := 1 |}
                    (Array [Leaf (runes "a"); Leaf (runes "b")]) []) Hin).
  - split; [exact Hout|].
    exact (proj1 (proj2 (matchIndexFn_Call_within_bounds
                           {| next := terminatingFn; Idx := 2 |}
                           (Array [Leaf (runes "a"); Leaf (runes "b")]) [])) Hout).
Defined.

(** * Further properties of the decoder *)

Lemma bind_peek {A} (k : rune -> M A) (dec : Decoder) :
  (r <- peek ;; k r) dec = k (nextRune dec) dec.
Proof. unfold bind. rewrite peek_pure. reflexivity. Qed.

Lemma isCRLF_peekFrom (input : list rune) :
  isCRLF (buffruneio.peekFrom 2 input) = startsCRLF input.
Proof.
  destruct input as [|a [|b rest]]; cbn [buffruneio.peekFrom startsCRLF isCRLF].
  - reflexivity.
  - destruct (Z.eqb_spec a buffruneio.EOF) as [->|_]; [reflexivity|].
    cbn [isCRLF]. rewrite andb_false_r. reflexivity.
  - destruct (Z.eqb_spec a buffruneio.EOF) as [->|_]; [reflexivity|].
    destruct (b =? buffruneio.EOF); reflexivity.
Qed.

Lemma skipWhitespace_stuck (fuel : nat) (dec : Decoder) :
  nextRune dec <> eof -> isRuneWhitespace (nextRune dec) = false ->
  skipWhitespace fuel dec = Diverged.
Proof.
  intros Heof Hws. induction fuel as [|fuel IH]; [reflexivity|].
  cbn [skipWhitespace]. rewrite bind_peek.
  destruct (Z.eqb_spec (nextRune dec) eof); [contradiction|].
  rewrite Hws. exact IH.
Qed.

(** [skipWhitespace] skips no blank: at the end of the input it returns,
    with the decoder as it was; at a blank it panics in the [read] that is
    to consume the blank; at any other rune its loop goes round on that rune
    and never ends. *)
Theorem skipWhitespace_behaviour (fuel : nat) (dec : Decoder) :
  skipWhitespace (S fuel) dec =
  if nextRune dec =? eof then Returned tt dec
  else if isRuneWhitespace (nextRune dec) then Panicked (ErrRead None)
  else Diverged.
Proof.
  destruct (Z.eqb_spec (nextRune dec) eof) as [E|E].
  - cbn [skipWhitespace]. rewrite bind_peek.
    rewrite (proj2 (Z.eqb_eq _ _) E). reflexivity.
  - destruct (isRuneWhitespace (nextRune dec)) eqn:Hws.
    + cbn [skipWhitespace]. rewrite bind_peek.
      rewrite (proj2 (Z.eqb_neq _ _) E), Hws. apply bind_read.
    + apply skipWhitespace_stuck; assumption.
Qed.

Lemma skipTrivia_cases (fuel : nat) (dec : Decoder) :
  skipWhitespaceAndNewlinesAndComments (S fuel) dec =
  if startsTrivia (buffruneio.pending (reader dec))
  then Panicked (ErrRead None)
  else Returned tt dec.
Proof.
  cbn [skipWhitespaceAndNewlinesAndComments]. rewrite bind_peek.
  destruct dec as [[input]]. unfold nextRune.
  cbn [reader buffruneio.pending].
  destruct input as [|r rest]; [reflexivity|].
  cbn [hd startsTrivia].
  destruct (Z.eqb_spec r eof) as [->|Heof].
  { destruct rest; reflexivity. }
  destruct (isRuneWhitespace r || (r =? lf)) eqn:Hblank.
  { cbn [orb]. apply bind_read. }
  cbn [orb].
  unfold bind at 1.
  destruct (Z.eqb_spec r cr) as [->|Hcr].
  - unfold bind at 1. rewrite peekRunes_within_cap by (unfold maxSliceCap; lia).
    unfold buffruneio.PeekRunes. cbn [reader buffruneio.pending].
    change (Z.to_nat 2) with 2%nat.
    rewrite isCRLF_peekFrom.
    destruct (startsCRLF (cr :: rest)); reflexivity.
  - assert (Hno : startsCRLF (r :: rest) = false).
    { destruct rest; cbn [startsCRLF]; [reflexivity|].
      rewrite (proj2 (Z.eqb_neq _ _) Hcr). reflexivity. }
    rewrite Hno. cbn [orb ret].
    destruct (r =? ch "#"); reflexivity.
Qed.

(** The top-level skipper clears no trivia and never loops for ever: when
    the input starts with a blank, a line feed, CR LF or a [#] it panics in
    the first [read]; on every other input, the empty one and a lone
    carriage return included, it returns and leaves the decoder as it was. *)
Theorem skipTrivia_behaviour (fuel : nat) (dec : Decoder) :
  skipWhitespaceAndNewlinesAndComments (S fuel) dec =
  if startsTrivia (buffruneio.pending (reader dec))
  then Panicked (ErrRead None)
  else Returned tt dec.
Proof. apply skipTrivia_cases. Qed.

Section KeyAndStringBehaviour.

Context {U : UnicodeTables}.

Lemma startOfKey_cases (r : rune) :
  isStartOfKey r = true ->
  r = squote \/ r = dquote \/ isValidBareKeyChar r = true.
Proof.
  unfold isStartOfKey, isValidBareKeyChar, isAlphanumeric.
  change (ch "a") with 97. change (ch "z") with 122.
  change (ch "A") with 65. change (ch "Z") with 90.
  change (ch "0") with 48. change (ch "9") with 57.
  change (ch "-") with 45. change (ch "_") with 95.
  unfold squote, dquote.
  intros H.
  repeat (apply orb_true_iff in H; destruct H as [H|H]).
  - apply andb_true_iff in H. destruct H as [H1 H2].
    apply Z.geb_le in H1. apply Z.leb_le in H2.
    right; right. rewrite IsLetter_ascii by lia. unfold asciiLetter.
    destruct (Z.leb_spec 97 r); [|lia]. destruct (Z.leb_spec r 122); [|lia].
    cbn. rewrite orb_true_r. reflexivity.
  - apply andb_true_iff in H. destruct H as [H1 H2].
    apply Z.geb_le in H1. apply Z.leb_le in H2.
    right; right. rewrite IsLetter_ascii by lia. unfold asciiLetter.
    destruct (Z.leb_spec 65 r); [|lia]. destruct (Z.leb_spec r 90); [|lia].
    reflexivity.
  - apply andb_true_iff in H. destruct H as [H1 H2].
    apply Z.geb_le in H1. apply Z.leb_le in H2.
    right; right. rewrite IsNumber_ascii by lia. unfold asciiDigit.
    destruct (Z.leb_spec 48 r); [|lia]. destruct (Z.leb_spec r 57); [|lia].
    cbn. rewrite orb_true_r. reflexivity.
  - right; right. rewrite H. rewrite orb_true_r. reflexivity.
  - right; right. rewrite H. rewrite orb_true_r. reflexivity.
  - left. apply Z.eqb_eq. exact H.
  - right; left. apply Z.eqb_eq. exact H.
Qed.

(** Every rune that [Decode] takes for the start of a key is a quote or a
    rune that the bare-key loop of [parseSimpleKey] accepts: the dispatch of
    the driver never sends the key parser a bare key of zero characters. *)
Theorem isStartOfKey_quote_or_bare (r : rune) :
  isStartOfKey r = true ->
  r = squote \/ r = dquote \/ isValidBareKeyChar r = true.
Proof. apply startOfKey_cases. Qed.

Lemma bareKeyLoop_behaviour (fuel : nat) (g : gostring) (dec : Decoder) :
  bareKeyLoop (S fuel) g dec =
  if isValidBareKeyChar (nextRune dec) then Panicked (ErrRead None)
  else Returned g dec.
Proof.
  cbn [bareKeyLoop]. rewrite bind_peek.
  destruct (isValidBareKeyChar (nextRune dec)); [apply bind_read | reflexivity].
Qed.

Lemma parseSimpleKey_behaviour (fuel : nat) (dec : Decoder) :
  parseSimpleKey (S fuel) dec =
  if startsKeyText (nextRune dec) then Panicked (ErrRead None)
  else Returned ([], None) dec.
Proof.
  unfold parseSimpleKey, startsKeyText. rewrite bind_peek.
  destruct (nextRune dec =? squote); [apply bind_read|].
  destruct (nextRune dec =? dquote); [apply bind_read|].
  cbn [orb]. unfold bind. rewrite bareKeyLoop_behaviour.
  destruct (isValidBareKeyChar (nextRune dec)); reflexivity.
Qed.

Lemma parseDottedKey_cases (fuel : nat) (dec : Decoder) :
  parseDottedKey (S fuel) dec =
  if startsKeyText (nextRune dec) || (nextRune dec =? ch ".")
  then Panicked (ErrRead None)
  else Returned ([], None) dec.
Proof.
  unfold parseDottedKey, bind at 1. rewrite parseSimpleKey_behaviour.
  destruct (startsKeyText (nextRune dec)); [reflexivity|].
  cbn [orb dottedKeyLoop]. rewrite bind_peek.
  destruct (nextRune dec =? ch "."); cbn [negb]; [apply bind_read | reflexivity].
Qed.

(** The key parsers return nothing but the empty key: [parseSimpleKey]
    panics in [read] at a quote or at a bare-key rune and returns the empty
    key, with no error and nothing consumed, at any other rune;
    [parseDottedKey] does the same and panics at a dot as well.  So neither
    returns an error, a non-empty key, or fails to finish. *)
Theorem key_parsers_behaviour (fuel : nat) (dec : Decoder) :
  parseSimpleKey (S fuel) dec =
  (if startsKeyText (nextRune dec) then Panicked (ErrRead None)
   else Returned ([], None) dec) /\
  parseDottedKey (S fuel) dec =
  (if startsKeyText (nextRune dec) || (nextRune dec =? ch ".")
   then Panicked (ErrRead None)
   else Returned ([], None) dec).
Proof.
  split; [apply parseSimpleKey_behaviour | apply parseDottedKey_cases].
Qed.

Lemma Decode_cases (T : Type) (fuel : nat) (target : T) (dec : Decoder) :
  Decode (S fuel) (Pointer target) dec =
  if startsTrivia (buffruneio.pending (reader dec)) then Panicked (ErrRead None)
  else if nextRune dec =? ch "[" then Returned (None, Pointer target) dec
  else if isStartOfKey (nextRune dec) then Panicked (ErrRead None)
  else Returned (Some (ErrUnexpectedTopLevel (nextRune dec)), Pointer target) dec.
Proof.
  unfold Decode, bind at 1. rewrite skipTrivia_cases.
  destruct (startsTrivia (buffruneio.pending (reader dec))); [reflexivity|].
  rewrite bind_peek.
  destruct (nextRune dec =? ch "["); [reflexivity|].
  destruct (isStartOfKey (nextRune dec)) eqn:Hkey; [|reflexivity].
  unfold bind at 1.
  rewrite parseDottedKey_cases.
  assert (Hs : startsKeyText (nextRune dec) = true).
  { unfold startsKeyText.
    destruct (startOfKey_cases _ Hkey) as [E | [E | E]]; rewrite E;
      [reflexivity | reflexivity | apply orb_true_r]. }
  rewrite Hs. reflexivity.
Qed.

(** [Decode] with a pointer decodes nothing and always finishes: it panics
    in the first [read] when the input starts with trivia or with the start
    of a key; it returns success, with the target and the decoder as they
    were, when the input starts with an opening bracket; on any other input,
    the empty one included, it returns the unexpected-character error for
    the rune it peeked, with the decoder as it was. *)
Theorem Decode_behaviour (T : Type) (fuel : nat) (target : T) (dec : Decoder) :
  Decode (S fuel) (Pointer target) dec =
  if startsTrivia (buffruneio.pending (reader dec)) then Panicked (ErrRead None)
  else if nextRune dec =? ch "[" then Returned (None, Pointer target) dec
  else if isStartOfKey (nextRune dec) then Panicked (ErrRead None)
  else Returned (Some (ErrUnexpectedTopLevel (nextRune dec)), Pointer target) dec.
Proof. apply Decode_cases. Qed.

(** C2. On success [Decode] is meant to leave the fully decoded root table
    in the target.  On the header [[t]], with a pointer to an empty table,
    it returns success with nothing read and the target still empty, which
    is not the root table of that input: the branch for the opening bracket
    is empty but for its note that tables are still to be parsed. *)
Theorem Decode_success_without_root_table (fuel : nat) :
  Decode (S fuel) (Pointer Empty) (NewDecoder (runes "[t]"))
  = Returned (None, Pointer Empty) (NewDecoder (runes "[t]")) /\
  Empty <> specRootOfHeader (runes "t").
Proof. split; [apply Decode_cases | discriminate]. Qed.

(** C7. On [a.b.c] [parseDottedKey] is meant to yield the segments a, b and
    c, and on ['a.b'] the one segment a.b.  On both it yields no key at all:
    it panics in the first [read], of the rune a and of the opening quote. *)
Theorem parseDottedKey_yields_no_segments (fuel : nat) :
  parseDottedKey (S fuel) (NewDecoder (runes "a.b.c")) = Panicked (ErrRead None) /\
  parseDottedKey (S fuel) (NewDecoder (runes "'a.b'")) = Panicked (ErrRead None).
Proof.
  split; rewrite parseDottedKey_cases; unfold nextRune, startsKeyText;
    cbn [NewDecoder reader buffruneio.NewReader buffruneio.pending runes
         list_ascii_of_string map hd].
  - destruct (startOfKey_cases (ch "a") eq_refl) as [E | [E | E]];
      [discriminate E | discriminate E | rewrite E].
    rewrite orb_true_r. reflexivity.
  - reflexivity.
Qed.

(** C9. On the two bindings of [key] [Decode] is meant to fail with
    DuplicateKey.  It returns no error: it panics in the [read] of the first
    rune of the first key, before any key or value is parsed. *)
Theorem Decode_two_bindings_no_DuplicateKey (fuel : nat) :
  Decode (S fuel) (Pointer Empty) (NewDecoder twoBindings)
  = Panicked (ErrRead None).
Proof. apply Decode_cases. Qed.

(** [parseLiteralString] never returns a string: at the end of the input it
    returns the unfinished-literal error, at a closing quote it panics in
    [read], and at any other rune its loop never ends. *)
Theorem parseLiteralString_behaviour (fuel : nat) (dec : Decoder) :
  parseLiteralString (S fuel) dec =
  if nextRune dec =? eof then Returned ([], Some ErrUnfinishedLiteral) dec
  else if nextRune dec =? squote then Panicked (ErrRead None)
  else Diverged.
Proof.
  destruct dec as [[input]]. unfold nextRune. cbn [reader buffruneio.pending].
  destruct input as [|r rest]; [reflexivity|]. cbn [hd].
  destruct (Z.eqb_spec r eof) as [->|Heof]; [reflexivity|].
  destruct (Z.eqb_spec r squote) as [->|Hq]; [reflexivity|].
  apply (literalLoop_stuck (S fuel) [] rest Heof Hq).
Qed.

(** [parseQuotedString] never returns a string and always finishes: at the
    end of the input it returns the unfinished-string error and at a raw
    control character the unescaped-control error, both with the decoder as
    it was; at every other rune (the closing quote and the backslash
    included) it panics in the first [read]. *)
Theorem parseQuotedString_behaviour (fuel : nat) (dec : Decoder) :
  parseQuotedString (S fuel) dec =
  if nextRune dec =? eof then Returned ([], Some ErrUnfinishedString) dec
  else if (nextRune dec =? dquote) || (nextRune dec =? backslash)
  then Panicked (ErrRead None)
  else if (0 <=? nextRune dec) && (nextRune dec <=? 31)
  then Returned ([], Some (ErrUnescapedControl (nextRune dec))) dec
  else Panicked (ErrRead None).
Proof.
  unfold parseQuotedString. cbn [quotedLoop]. rewrite bind_peek.
  destruct (nextRune dec =? eof); [reflexivity|].
  destruct (nextRune dec =? dquote); [apply bind_read|].
  destruct (nextRune dec =? backslash); [apply bind_read|].
  cbn [orb].
  destruct ((0 <=? nextRune dec) && (nextRune dec <=? 31)); [reflexivity|].
  apply bind_read.
Qed.

(** The escape chain has no final else: a rune it has no branch for is
    accepted in silence, with nothing appended, nothing consumed and no
    error. *)
Theorem escape_unknown_accepted (e : rune) (g : gostring) (dec : Decoder) :
  ~ In e escapeRunes ->
  escape e g dec = Returned (g, None) dec.
Proof.
  unfold escapeRunes. cbn [In]. intros H. unfold escape.
  destruct (Z.eqb_spec e dquote) as [E|_]; [exfalso; apply H; rewrite E; auto 12|].
  destruct (Z.eqb_spec e backslash) as [E|_]; [exfalso; apply H; rewrite E; auto 12|].
  destruct (Z.eqb_spec e (ch "/")) as [E|_]; [exfalso; apply H; rewrite E; auto 12|].
  destruct (Z.eqb_spec e (ch "b")) as [E|_]; [exfalso; apply H; rewrite E; auto 12|].
  destruct (Z.eqb_spec e (ch "f")) as [E|_]; [exfalso; apply H; rewrite E; auto 12|].
  destruct (Z.eqb_spec e (ch "n")) as [E|_]; [exfalso; apply H; rewrite E; auto 12|].
  destruct (Z.eqb_spec e (ch "r")) as [E|_]; [exfalso; apply H; rewrite E; auto 12|].
  destruct (Z.eqb_spec e (ch "t")) as [E|_]; [exfalso; apply H; rewrite E; auto 12|].
  destruct (Z.eqb_spec e (ch "u")) as [E|_]; [exfalso; apply H; rewrite E; auto 12|].
  destruct (Z.eqb_spec e (ch "U")) as [E|_]; [exfalso; apply H; rewrite E; auto 12|].
  reflexivity.
Qed.

End KeyAndStringBehaviour.

Section EscapeSequenceBehaviour.

Context {U : UnicodeTables}.

Lemma readHexRunes_cons_panics (c : rune) (rest : list rune) (dec : Decoder) :
  readHexRunes (c :: rest) dec = Panicked (ErrRead None).
Proof. cbn [readHexRunes]. apply bind_read. Qed.

(** [parseUnicodeEscapeSequence] never returns a character: whatever the
    length asked for and the input, the only thing it returns is the
    unfinished-sequence error, with nothing consumed. *)
Theorem parseUnicodeEscapeSequence_returns_only_unfinished
  (length : Z) (dec dec' : Decoder) (res : gostring * option error) :
  parseUnicodeEscapeSequence length dec = Returned res dec' ->
  res = ([], Some ErrUnfinishedSequence) /\ dec' = dec.
Proof.
  unfold parseUnicodeEscapeSequence.
  unfold bind at 1, peekRunes.
  destruct ((length <? 0) || (maxSliceCap <? length)); [discriminate|].
  destruct (Z.of_nat (List.length (buffruneio.PeekRunes (Z.to_nat length) (reader dec))) <? length).
  { intros H. apply ret_Returned in H. destruct H as [<- <-]. split; reflexivity. }
  destruct (length - 1 <? 0); [discriminate|].
  destruct (buffruneio.PeekRunes (Z.to_nat length) (reader dec)) as [|c rest] eqn:Hpeek.
  { destruct (Z.to_nat (length - 1)); discriminate. }
  destruct (nth_error (c :: rest) (Z.to_nat (length - 1))) as [last|]; [|discriminate].
  destruct (last =? eof).
  { intros H. apply ret_Returned in H. destruct H as [<- <-]. split; reflexivity. }
  unfold bind. rewrite readHexRunes_cons_panics. discriminate.
Qed.

End EscapeSequenceBehaviour.

(** * The earlier revision of the driver *)

Lemma isStartOfKey_range (r : rune) : isStartOfKey r = true -> 34 <= r <= 122.
Proof.
  unfold isStartOfKey.
  change (ch "a") with 97. change (ch "z") with 122.
  change (ch "A") with 65. change (ch "Z") with 90.
  change (ch "0") with 48. change (ch "9") with 57.
  change (ch "-") with 45. change (ch "_") with 95.
  unfold squote, dquote.
  rewrite !orb_true_iff, !andb_true_iff, !Z.geb_le, !Z.leb_le, !Z.eqb_eq.
  lia.
Qed.

(** The [Decode] of the earlier revision differs from the later one at a
    bare key: it parses nothing there and goes on to [skipWhitespace], which
    never finishes on the first rune of the key.  At a quote it panics in
    [read]; elsewhere it behaves as the later [Decode]: panic on trivia,
    success with the target as it was on an opening bracket, the
    unexpected-character error on anything else, the empty input included. *)
Theorem Draft_Decode_behaviour
  (T : Type) (fuel : nat) (target : T) (dec : Decoder) :
  Draft.Decode (S fuel) (Pointer target) dec =
  if startsTrivia (buffruneio.pending (reader dec)) then Panicked (ErrRead None)
  else if nextRune dec =? ch "[" then Returned (None, Pointer target) dec
  else if isStartOfKey (nextRune dec) then
    if (nextRune dec =? squote) || (nextRune dec =? dquote)
    then Panicked (ErrRead None)
    else Diverged
  else Returned (Some (Draft.Common (ErrUnexpectedTopLevel (nextRune dec))),
                 Pointer target) dec.
Proof.
  unfold Draft.Decode, bind at 1. rewrite skipTrivia_cases.
  destruct (startsTrivia (buffruneio.pending (reader dec))); [reflexivity|].
  rewrite bind_peek.
  destruct (nextRune dec =? ch "["); [reflexivity|].
  destruct (isStartOfKey (nextRune dec)) eqn:Hkey; [|reflexivity].
  apply isStartOfKey_range in Hkey.
  unfold bind at 1.
  destruct (nextRune dec =? squote); [rewrite bind_read; reflexivity|].
  destruct (nextRune dec =? dquote); [rewrite bind_read; reflexivity|].
  cbn [orb ret]. unfold bind at 1.
  rewrite skipWhitespace_stuck; [reflexivity | |].
  - unfold eof. lia.
  - unfold isRuneWhitespace, space, tab.
    destruct (Z.eqb_spec (nextRune dec) 32); [lia|].
    destruct (Z.eqb_spec (nextRune dec) 9); [lia|]. reflexivity.
Qed.

(** ** Runs that meet the hypotheses above *)

Lemma isStartOfKey_quote_or_bare_witness :
  ch "k" = squote \/ ch "k" = dquote \/
  isValidBareKeyChar (U := asciiTables) (ch "k") = true.
Proof.
  apply (isStartOfKey_quote_or_bare (U := asciiTables) (ch "k")). reflexivity.
Defined.

Lemma escape_unknown_accepted_witness :
  escape (U := asciiTables) (ch "q") (runes "ab") (NewDecoder (runes "q"))
  = Returned (runes "ab", None) (NewDecoder (runes "q")).
Proof.
  apply (escape_unknown_accepted (U := asciiTables) (e := ch "q")).
  unfold escapeRunes. cbn [In]. intros H.
  repeat (destruct H as [H|H]; [discriminate H|]). exact H.
Defined.

Lemma parseUnicodeEscapeSequence_returns_only_unfinished_witness :
  parseUnicodeEscapeSequence (U := asciiTables) 4 (NewDecoder (runes "D8"))
  = Returned ([], Some ErrUnfinishedSequence) (NewDecoder (runes "D8")) /\
  (([], Some ErrUnfinishedSequence) = ([] : gostring, Some ErrUnfinishedSequence) /\
   NewDecoder (runes "D8") = NewDecoder (runes "D8")).
Proof.
  assert (H : parseUnicodeEscapeSequence (U := asciiTables) 4 (NewDecoder (runes "D8"))
              = Returned ([], Some ErrUnfinishedSequence) (NewDecoder (runes "D8")))
    by reflexivity.
  split; [exact H|].
  exact (parseUnicodeEscapeSequence_returns_only_unfinished (U := asciiTables) 4 _ H).
Defined.

(** * Properties of the slice and union matches *)

Import JpathLoops.

Section SliceFacts.

Variable queryContext : Type.
Variable next : PathFn queryContext.

Lemma wrapInt_small (z : Z) : minInt <= z <= maxInt -> wrapInt z = z.
Proof.
  unfold minInt, maxInt, wrapInt. intros Hz.
  rewrite Z.mod_small by lia. lia.
Qed.

Lemma elementAt_Some_range (arr : list node) (i : Z) (x : node) :
  elementAt arr i = Some x -> 0 <= i < Z.of_nat (List.length arr).
Proof.
  unfold elementAt.
  destruct (Z.leb_spec 0 i); destruct (Z.ltb_spec i (Z.of_nat (List.length arr)));
    cbn [andb]; try discriminate.
  intros _. lia.
Qed.

Lemma elementAt_None_range (arr : list node) (i : Z) :
  elementAt arr i = None -> i < 0 \/ Z.of_nat (List.length arr) <= i.
Proof.
  intros H.
  destruct (Z.ltb_spec i 0); [left; assumption|].
  destruct (Z.leb_spec (Z.of_nat (List.length arr)) i); [right; assumption|].
  destruct (elementAt_in_range arr (i := i)) as (x & Ex & _); [lia|].
  congruence.
Qed.

Lemma strided_done (arr : list node) (start stop step : Z) :
  0 < step -> stop <= start -> strided arr start stop step = [].
Proof.
  intros Hstep Hle. unfold strided.
  assert (Hq : (stop - start + step - 1) / step < 1)
    by (apply Z.div_lt_upper_bound; lia).
  replace (Z.to_nat ((stop - start + step - 1) / step)) with 0%nat by lia.
  reflexivity.
Qed.

Lemma strided_count (start stop step : Z) :
  0 < step -> start < stop ->
  Z.to_nat ((stop - start + step - 1) / step)
  = S (Z.to_nat ((stop - (start + step) + step - 1) / step)).
Proof.
  intros Hstep Hlt.
  replace (stop - start + step - 1) with ((stop - start - 1) + 1 * step) by lia.
  rewrite Z.div_add by lia.
  replace (stop - (start + step) + step - 1) with (stop - start - 1) by lia.
  assert (0 <= (stop - start - 1) / step) by (apply Z.div_pos; lia).
  lia.
Qed.

Lemma strided_step (arr : list node) (start stop step : Z) (x : node) :
  0 < step -> start < stop -> elementAt arr start = Some x ->
  strided arr start stop step = x :: strided arr (start + step) stop step.
Proof.
  intros Hstep Hlt Hx. unfold strided.
  rewrite strided_count by assumption.
  cbn [seq flat_map]. rewrite <- seq_shift, flat_map_concat_map, map_map.
  rewrite <- flat_map_concat_map.
  replace (start + Z.of_nat 0 * step) with start by lia. rewrite Hx.
  cbn [app]. f_equal.
  apply flat_map_ext. intros k.
  replace (start + Z.of_nat (S k) * step) with (start + step + Z.of_nat k * step) by lia.
  reflexivity.
Qed.

Lemma sliceLoop_strided (arr : list node) (stop step : Z) :
  0 < step -> stop <= Z.of_nat (List.length arr) -> stop + step <= maxInt ->
  forall (fuel : nat) (idx : Z) (ctx : queryContext),
    0 <= idx ->
    (Z.to_nat ((stop - idx + step - 1) / step) < fuel)%nat ->
    sliceLoop fuel next arr step idx stop ctx
    = Some (callEach next (strided arr idx stop step) ctx).
Proof.
  intros Hstep Hstop Hmax.
  induction fuel as [|fuel IH]; intros idx ctx Hidx Hfuel; [lia|].
  cbn [sliceLoop].
  destruct (Z.ltb_spec idx stop) as [Hlt|Hge].
  - destruct (elementAt_in_range arr (i := idx)) as (x & Ex & _); [lia|].
    rewrite Ex, (strided_step arr Hstep Hlt Ex). cbn [callEach].
    destruct (Call next x ctx) as [ctx'| |]; try reflexivity.
    rewrite wrapInt_small by (unfold minInt, maxInt in *; lia).
    apply IH; [lia|].
    rewrite strided_count in Hfuel by assumption. lia.
  - rewrite strided_done by assumption. reflexivity.
Qed.

(** With a positive step and bounds within the array, [matchSliceFn.Call]
    hands to the next functor the elements at [Start], [Start + Step], ...
    below [End], in that order, each call on the context the one before
    left, and stops at the first call that panics. *)
Theorem matchSliceFn_Call_strided
  (start stop step : Z) (arr : list node) (ctx : queryContext) (fuel : nat) :
  0 < step -> 0 <= start <= stop ->
  stop <= Z.of_nat (List.length arr) -> stop + step <= maxInt ->
  (Z.to_nat ((stop - start + step - 1) / step) < fuel)%nat ->
  matchSliceFn_Call fuel
    {| sliceNext := next; Start := start; End := stop; Step := step |}
    (Array arr) ctx
  = Some (callEach next (strided arr start stop step) ctx).
Proof.
  intros Hstep Hrange Hstop Hmax Hfuel.
  unfold matchSliceFn_Call. cbn [Start End Step sliceNext].
  destruct (Z.ltb_spec start 0); [lia|].
  destruct (Z.ltb_spec stop 0); [lia|].
  destruct (Z.ltb_spec stop start); [lia|].
  apply sliceLoop_strided; try assumption; lia.
Qed.

End SliceFacts.

Section SliceEdges.

Variable queryContext : Type.
Variable next : PathFn queryContext.

Lemma skipn_nth_error (arr : list node) :
  forall (n : nat) (x : node),
    nth_error arr n = Some x -> skipn n arr = x :: skipn (S n) arr.
Proof.
  induction arr as [|y arr IH]; intros [|n] x H; try discriminate.
  - injection H as ->. reflexivity.
  - cbn [nth_error] in H. apply IH in H. exact H.
Qed.

Lemma strided_step_one (arr : list node) (count : nat) :
  forall start : Z,
    0 <= start -> start + Z.of_nat count <= Z.of_nat (List.length arr) ->
    strided arr start (start + Z.of_nat count) 1
    = firstn count (skipn (Z.to_nat start) arr).
Proof.
  induction count as [|count IH]; intros start Hstart Hstop.
  - apply strided_done; lia.
  - destruct (elementAt_in_range arr (i := start)) as (x & Ex & En); [lia|].
    rewrite (strided_step arr (stop := start + Z.of_nat (S count)) (step := 1)) with (x := x);
      [|lia|lia|exact Ex].
    rewrite (skipn_nth_error arr _ En). cbn [firstn]. f_equal.
    replace (start + Z.of_nat (S count)) with (start + 1 + Z.of_nat count) by lia.
    rewrite IH by lia.
    replace (Z.to_nat (start + 1)) with (S (Z.to_nat start)) by lia.
    reflexivity.
Qed.

(** With step 1 and [0 <= Start <= End <= len(arr)], [matchSliceFn.Call]
    hands to the next functor exactly the elements of the Go slice
    [arr[Start:End]], in order. *)
Theorem matchSliceFn_Call_step_one
  (start stop : Z) (arr : list node) (ctx : queryContext) (fuel : nat) :
  0 <= start <= stop ->
  stop <= Z.of_nat (List.length arr) -> Z.of_nat (List.length arr) < maxInt ->
  (Z.to_nat (stop - start) < fuel)%nat ->
  matchSliceFn_Call fuel
    {| sliceNext := next; Start := start; End := stop; Step := 1 |}
    (Array arr) ctx
  = Some (callEach next
            (firstn (Z.to_nat (stop - start)) (skipn (Z.to_nat start) arr)) ctx).
Proof.
  intros Hrange Hstop Hmax Hfuel.
  rewrite <- (strided_step_one arr (Z.to_nat (stop - start)) (start := start)) by lia.
  replace (start + Z.of_nat (Z.to_nat (stop - start))) with stop by lia.
  unfold matchSliceFn_Call. cbn [Start End Step sliceNext].
  destruct (Z.ltb_spec start 0); [lia|].
  destruct (Z.ltb_spec stop 0); [lia|].
  destruct (Z.ltb_spec stop start); [lia|].
  apply sliceLoop_strided; try lia.
  replace (stop - start + 1 - 1) with (stop - start) by lia.
  rewrite Z.div_1_r. exact Hfuel.
Qed.

(** [matchSliceFn.Call] orders its two bounds itself: exchanging [Start] and
    [End] changes nothing, on any node, with any step. *)
Theorem matchSliceFn_Call_bounds_exchange
  (a b step : Z) (n : node) (ctx : queryContext) (fuel : nat) :
  matchSliceFn_Call fuel
    {| sliceNext := next; Start := a; End := b; Step := step |} n ctx
  = matchSliceFn_Call fuel
      {| sliceNext := next; Start := b; End := a; Step := step |} n ctx.
Proof.
  destruct n as [entries|arr|text]; try reflexivity.
  unfold matchSliceFn_Call. cbn [Start End Step sliceNext].
  set (ra := if a <? 0 then Z.of_nat (List.length arr) + a else a).
  set (rb := if b <? 0 then Z.of_nat (List.length arr) + b else b).
  destruct (Z.ltb_spec rb ra); destruct (Z.ltb_spec ra rb); try reflexivity; try lia.
  replace rb with ra by lia. reflexivity.
Qed.

Lemma sliceLoop_runs_off (arr : list node) (stop : Z) :
  returns next ->
  Z.of_nat (List.length arr) < stop -> Z.of_nat (List.length arr) < maxInt ->
  forall (fuel : nat) (idx : Z) (ctx : queryContext),
    0 <= idx -> idx < stop ->
    (Z.to_nat (Z.of_nat (List.length arr) - idx) < fuel)%nat ->
    sliceLoop fuel next arr 1 idx stop ctx = Some (IndexOutOfRange queryContext).
Proof.
  intros Hnext Hstop Hmax.
  induction fuel as [|fuel IH]; intros idx ctx Hidx Hlt Hfuel; [lia|].
  cbn [sliceLoop].
  destruct (Z.ltb_spec idx stop); [|lia].
  destruct (elementAt arr idx) as [x|] eqn:Ex; [|reflexivity].
  apply elementAt_Some_range in Ex.
  destruct (Hnext x ctx) as (ctx' & ->).
  rewrite wrapInt_small by (unfold minInt, maxInt in *; lia).
  apply IH; lia.
Qed.

(** [matchSliceFn.Call] checks no bound: when [End] is beyond the length of
    the array (step 1, [0 <= Start < End], a next functor that returns), the
    call hands over the elements from [Start] on and then stops in the
    index-out-of-range panic of [arr[idx]]. *)
Theorem matchSliceFn_Call_past_the_end
  (start stop : Z) (arr : list node) (ctx : queryContext) (fuel : nat) :
  returns next ->
  0 <= start < stop ->
  Z.of_nat (List.length arr) < stop -> Z.of_nat (List.length arr) < maxInt ->
  (S (List.length arr) < fuel)%nat ->
  matchSliceFn_Call fuel
    {| sliceNext := next; Start := start; End := stop; Step := 1 |}
    (Array arr) ctx
  = Some (IndexOutOfRange queryContext).
Proof.
  intros Hnext Hrange Hstop Hmax Hfuel.
  unfold matchSliceFn_Call. cbn [Start End Step sliceNext].
  destruct (Z.ltb_spec start 0); [lia|].
  destruct (Z.ltb_spec stop 0); [lia|].
  destruct (Z.ltb_spec stop start); [lia|].
  apply sliceLoop_runs_off; try assumption; lia.
Qed.

Lemma sliceLoop_zero_step (arr : list node) (idx stop : Z) :
  returns next ->
  0 <= idx < Z.of_nat (List.length arr) -> idx < stop -> idx <= maxInt ->
  forall (fuel : nat) (ctx : queryContext),
    sliceLoop fuel next arr 0 idx stop ctx = None.
Proof.
  intros Hnext Hidx Hlt Hmax.
  induction fuel as [|fuel IH]; intros ctx; [reflexivity|].
  cbn [sliceLoop].
  destruct (Z.ltb_spec idx stop); [|lia].
  destruct (elementAt_in_range arr (i := idx)) as (x & -> & _); [lia|].
  destruct (Hnext x ctx) as (ctx' & ->).
  rewrite wrapInt_small by (unfold minInt, maxInt in *; lia).
  replace (idx + 0) with idx by lia. apply IH.
Qed.

(** With step 0 the loop of [matchSliceFn.Call] never ends: on a non-empty
    range that starts within the array, with a next functor that returns,
    the call hands over [arr[Start]] again and again and does not return,
    whatever the number of iterations allowed. *)
Theorem matchSliceFn_Call_zero_step_diverges
  (start stop : Z) (arr : list node) (ctx : queryContext) (fuel : nat) :
  returns next ->
  0 <= start < stop -> start < Z.of_nat (List.length arr) -> start <= maxInt ->
  matchSliceFn_Call fuel
    {| sliceNext := next; Start := start; End := stop; Step := 0 |}
    (Array arr) ctx
  = None.
Proof.
  intros Hnext Hrange Hin Hmax.
  unfold matchSliceFn_Call. cbn [Start End Step sliceNext].
  destruct (Z.ltb_spec start 0); [lia|].
  destruct (Z.ltb_spec stop 0); [lia|].
  destruct (Z.ltb_spec stop start); [lia|].
  apply sliceLoop_zero_step; try assumption; lia.
Qed.

Lemma sliceLoop_negative_step (arr : list node) (stop step : Z) :
  returns next ->
  minInt <= step < 0 -> Z.of_nat (List.length arr) <= maxInt ->
  forall (fuel : nat) (idx : Z) (ctx : queryContext),
    idx < stop ->
    (Z.to_nat (idx + 1) < fuel)%nat ->
    sliceLoop fuel next arr step idx stop ctx = Some (IndexOutOfRange queryContext).
Proof.
  intros Hnext Hstep Hmax.
  induction fuel as [|fuel IH]; intros idx ctx Hlt Hfuel; [lia|].
  cbn [sliceLoop].
  destruct (Z.ltb_spec idx stop); [|lia].
  destruct (elementAt arr idx) as [x|] eqn:Ex; [|reflexivity].
  apply elementAt_Some_range in Ex.
  destruct (Hnext x ctx) as (ctx' & ->).
  rewrite wrapInt_small by (unfold minInt, maxInt in *; lia).
  apply IH; lia.
Qed.

(** With a negative step the loop of [matchSliceFn.Call] walks backwards
    from [Start]: on a non-empty range, with a next functor that returns, the
    call ends in the index-out-of-range panic of [arr[idx]], never in a
    return. *)
Theorem matchSliceFn_Call_negative_step_panics
  (start stop step : Z) (arr : list node) (ctx : queryContext) (fuel : nat) :
  returns next ->
  0 <= start < stop -> minInt <= step < 0 ->
  Z.of_nat (List.length arr) <= maxInt ->
  (Z.to_nat (start + 1) < fuel)%nat ->
  matchSliceFn_Call fuel
    {| sliceNext := next; Start := start; End := stop; Step := step |}
    (Array arr) ctx
  = Some (IndexOutOfRange queryContext).
Proof.
  intros Hnext Hrange Hstep Hmax Hfuel.
  unfold matchSliceFn_Call. cbn [Start End Step sliceNext].
  destruct (Z.ltb_spec start 0); [lia|].
  destruct (Z.ltb_spec stop 0); [lia|].
  destruct (Z.ltb_spec stop start); [lia|].
  apply sliceLoop_negative_step; try assumption; lia.
Qed.

(** ** The union match *)

Lemma unionLoop_app (fs gs : list (PathFn queryContext)) (n : node) :
  forall ctx : queryContext,
    unionLoop (fs ++ gs) n ctx
    = match unionLoop fs n ctx with
      | Done ctx' => unionLoop gs n ctx'
      | stopped => stopped
      end.
Proof.
  induction fs as [|f fs IH]; intros ctx; [reflexivity|].
  cbn [app unionLoop].
  destruct (Call f n ctx) as [ctx'| |]; [apply IH | reflexivity | reflexivity].
Qed.

(** A union of index matches over one next functor hands over, for an array,
    the elements at the indices that are within its bounds, in the order the
    indices are listed and as often as they are listed; indices out of range
    are passed over in silence.  On a node that is no array it does nothing. *)
Theorem matchUnionFn_Call_of_indices
  (idxs : list Z) (n : node) (ctx : queryContext) :
  matchUnionFn_Call {| Union := map (indexFn next) idxs |} n ctx
  = match n with
    | Array arr => callEach next (pick arr idxs) ctx
    | _ => Done ctx
    end.
Proof.
  unfold matchUnionFn_Call. cbn [Union].
  destruct n as [entries|arr|text].
  - induction idxs as [|i idxs IH]; [reflexivity | exact IH].
  - revert ctx. induction idxs as [|i idxs IH]; intros ctx; [reflexivity|].
    cbn [map unionLoop]. unfold pick. cbn [flat_map].
    fold (pick arr idxs).
    unfold indexFn at 1. cbn [Call matchIndexFn_Call Idx Jpath.next].
    destruct (elementAt arr i) as [x|] eqn:Ex.
    + apply elementAt_Some_range in Ex.
      destruct (Z.ltb_spec i (Z.of_nat (List.length arr))); [|lia].
      destruct (Z.geb_spec i 0); [|lia].
      cbn [andb app callEach].
      destruct (Call next x ctx) as [ctx'| |]; [apply IH | reflexivity | reflexivity].
    + apply elementAt_None_range in Ex.
      cbn [app].
      destruct (Z.ltb_spec i (Z.of_nat (List.length arr)));
        destruct (Z.geb_spec i 0); cbn [andb]; try apply IH.
      lia.
  - induction idxs as [|i idxs IH]; [reflexivity | exact IH].
Qed.

(** The calls of a union compose: the union of two lists of functors is the
    union of the first followed, on the context it leaves, by the union of
    the second; a panic in the first ends the call. *)
Theorem matchUnionFn_Call_app
  (fs gs : list (PathFn queryContext)) (n : node) (ctx : queryContext) :
  matchUnionFn_Call {| Union := fs ++ gs |} n ctx
  = match matchUnionFn_Call {| Union := fs |} n ctx with
    | Done ctx' => matchUnionFn_Call {| Union := gs |} n ctx'
    | stopped => stopped
    end.
Proof. apply unionLoop_app. Qed.

End SliceEdges.

(** ** Runs of the slice match

    The slice match on the array of the five leaves a to e, with the
    terminating functor as the next one and no result gathered yet. *)

Lemma terminatingFn_returns : returns terminatingFn.
Proof. intros x ctx. exists (ctx ++ [x]). reflexivity. Defined.

Lemma matchSliceFn_Call_strided_witness :
  matchSliceFn_Call 4
    {| sliceNext := terminatingFn; Start := 0; End := 5; Step := 2 |}
    (Array (map Leaf [runes "a"; runes "b"; runes "c"; runes "d"; runes "e"])) []
  = Some (Done [Leaf (runes "a"); Leaf (runes "c"); Leaf (runes "e")]).
Proof.
  apply (matchSliceFn_Call_strided terminatingFn (start := 0) (stop := 5) (step := 2)
           (map Leaf [runes "a"; runes "b"; runes "c"; runes "d"; runes "e"]) []
           (fuel := 4)).
  - lia.
  - lia.
  - simpl. lia.
  - unfold maxInt. lia.
  - simpl. lia.
Defined.

Lemma matchSliceFn_Call_step_one_witness :
  matchSliceFn_Call 3
    {| sliceNext := terminatingFn; Start := 1; End := 3; Step := 1 |}
    (Array (map Leaf [runes "a"; runes "b"; runes "c"; runes "d"; runes "e"])) []
  = Some (Done [Leaf (runes "b"); Leaf (runes "c")]).
Proof.
  apply (matchSliceFn_Call_step_one terminatingFn (start := 1) (stop := 3)
           (map Leaf [runes "a"; runes "b"; runes "c"; runes "d"; runes "e"]) []
           (fuel := 3)).
  - lia.
  - simpl. lia.
  - unfold maxInt. simpl. lia.
  - simpl. lia.
Defined.

Lemma matchSliceFn_Call_past_the_end_witness :
  matchSliceFn_Call 7
    {| sliceNext := terminatingFn; Start := 3; End := 6; Step := 1 |}
    (Array (map Leaf [runes "a"; runes "b"; runes "c"; runes "d"; runes "e"])) []
  = Some (IndexOutOfRange (list node)).
Proof.
  apply (matchSliceFn_Call_past_the_end (next := terminatingFn) (start := 3) (stop := 6)
           (map Leaf [runes "a"; runes "b"; runes "c"; runes "d"; runes "e"]) []
           (fuel := 7)).
  - exact terminatingFn_returns.
  - lia.
  - simpl. lia.
  - unfold maxInt. simpl. lia.
  - simpl. lia.
Defined.

Lemma matchSliceFn_Call_zero_step_diverges_witness :
  matchSliceFn_Call 50
    {| sliceNext := terminatingFn; Start := 1; End := 3; Step := 0 |}
    (Array (map Leaf [runes "a"; runes "b"; runes "c"; runes "d"; runes "e"])) []
  = None.
Proof.
  apply (matchSliceFn_Call_zero_step_diverges (next := terminatingFn)
           (start := 1) (stop := 3)
           (map Leaf [runes "a"; runes "b"; runes "c"; runes "d"; runes "e"]) [] 50).
  - exact terminatingFn_returns.
  - lia.
  - simpl. lia.
  - unfold maxInt. lia.
Defined.

Lemma matchSliceFn_Call_negative_step_panics_witness :
  matchSliceFn_Call 4
    {| sliceNext := terminatingFn; Start := 2; End := 4; Step := -1 |}
    (Array (map Leaf [runes "a"; runes "b"; runes "c"; runes "d"; runes "e"])) []
  = Some (IndexOutOfRange (list node)).
Proof.
  apply (matchSliceFn_Call_negative_step_panics (next := terminatingFn)
           (start := 2) (stop := 4) (step := -1)
           (map Leaf [runes "a"; runes "b"; runes "c"; runes "d"; runes "e"]) []
           (fuel := 4)).
  - exact terminatingFn_returns.
  - lia.
  - unfold minInt. lia.
  - unfold maxInt. simpl. lia.
  - simpl. lia.
Defined.
